(** * nrb: the file-upload Lambda ([index.js])

    A shallow embedding of the handler [upload] and its three helpers
    [parseMultipartFormData], [uploadFileIntoS3] and [getFileExtension].

    The module talks to four things it does not implement: the
    [lambda-multipart] decoder, the S3 client, [uuid/v4] and [process.env].
    Each of them is an explicit argument of the model:
    - the decoder is what its constructor does (it throws, or it returns)
      and the list of notifications it then delivers to the two handlers
      that [parseMultipartFormData] subscribes;
    - the S3 client is the answer it gives to each upload, and the order in
      which the uploads complete;
    - [uuidv4] is the sequence of identifiers it returns, call after call;
    - [process.env] is a finite map.

    Promises are modelled by their three states; an [async] function is cut
    at its [await] into the part that runs at once and the part that runs
    when the awaited promise settles. *)

From Stdlib Require Import Ascii String.
From stdpp Require Import gmap strings list.

Open Scope string_scope.

(** ** Values *)

(** The double-quote character, which the two error messages contain. *)
Definition dquote : string := String "034"%char EmptyString.

(** What the code can throw: [new Error(message)] (lines 93 and 116), the
    [ReferenceError] of reading an identifier that nothing binds, and the
    error objects of the two libraries (decoder and S3 client), which the
    handler only passes on. *)
Inductive js_error : Type :=
| Error (message : string)
| ReferenceError (message : string)
| LibraryError (description : string).

#[global] Instance js_error_eq_dec : EqDecision js_error.
Proof. solve_decision. Defined.

(** A value interpolated in a template literal: a string is itself,
    [undefined] is the text "undefined". *)
Definition interpolate (v : option string) : string :=
  match v with
  | Some s => s
  | None => "undefined"
  end.

(** [v == s] for [s] a string literal and [v] a string or [undefined]:
    on two strings [==] is equality of the texts, and [undefined] equals no
    string. *)
Definition loose_eq (v : option string) (s : string) : bool :=
  match v with
  | Some t => bool_decide (t = s)
  | None => false
  end.

(** One uploaded file as the decoder hands it over: the part's headers
    (a mapping from header name to value, or [None] when [file.headers] is
    [null] or [undefined]) and the part's raw content. *)
Record FileRecord : Type := {
  headers : option (gmap string string);
  content : string
}.

#[global] Instance FileRecord_eq_dec : EqDecision FileRecord.
Proof. solve_decision. Defined.

(** ** [getFileExtension] (lines 90-117) *)

Definition MissingHeadersError : js_error :=
  Error ("Missing " +:+ dquote +:+ "headers" +:+ dquote +:+ " from request").

Definition UnsupportedContentTypeError (contentType : option string) : js_error :=
  Error ("Unsupported content type " +:+ dquote +:+ interpolate contentType
           +:+ dquote +:+ ".").

Definition getFileExtension (file : FileRecord) : js_error + string :=
  match headers file with
  | None => inl MissingHeadersError
  | Some headers =>
      let contentType := headers !! "content-type" in
      if loose_eq contentType "image/jpeg" then inr "jpg"
      else if loose_eq contentType "image/png" then inr "png"
      else if loose_eq contentType "text/html" then inr "html"
      else if loose_eq contentType "text/css" then inr "css"
      else if loose_eq contentType "application/javascript" then inr "javascript"
      else if loose_eq contentType "application/json" then inr "json"
      else inl (UnsupportedContentTypeError contentType)
  end.

(** The table of the specification, written as data: the six supported
    content types and the extension of each. It is compared with
    [getFileExtension] below. *)
Definition extension_table : list (string * string) :=
  [ ("image/jpeg", "jpg");
    ("image/png", "png");
    ("text/html", "html");
    ("text/css", "css");
    ("application/javascript", "javascript");
    ("application/json", "json") ].

Fixpoint table_lookup (table : list (string * string)) (key : string) : option string :=
  match table with
  | [] => None
  | (k, v) :: rest => if bool_decide (k = key) then Some v else table_lookup rest key
  end.

(** ** Promises *)

Inductive promise (A : Type) : Type :=
| pending
| fulfilled (value : A)
| rejected (reason : js_error).

Arguments pending {A}.
Arguments fulfilled {A} value.
Arguments rejected {A} reason.

(** The two functions an executor receives. Calling either on a promise that
    is already settled does nothing. *)
Definition resolve {A : Type} (value : A) (p : promise A) : promise A :=
  match p with
  | pending => fulfilled value
  | _ => p
  end.

Definition reject {A : Type} (reason : js_error) (p : promise A) : promise A :=
  match p with
  | pending => rejected reason
  | _ => p
  end.

Definition is_pending {A : Type} (p : promise A) : bool :=
  match p with
  | pending => true
  | _ => false
  end.

(** ** [parseMultipartFormData] (lines 39-51) *)

(** [result.files]: an array of file records, or [null] / [undefined]. *)
Inductive js_files : Type :=
| files_undefined
| files_null
| files_array (items : list FileRecord).

(** The argument of the decoder's "finish" notification and, with the same
    two properties, the value the promise resolves with. *)
Record parsed : Type := {
  fields : gmap string string;
  files : js_files
}.

(** What the decoder can emit on the two channels the code listens to. *)
Inductive parser_event : Type :=
| finish (result : parsed)
| error (err : js_error).

(** The handler subscribed for each notification (lines 43-49). *)
Definition parser_on (ev : parser_event) (p : promise parsed) : promise parsed :=
  match ev with
  | finish result => resolve {| fields := fields result; files := files result |} p
  | error err => reject err p
  end.

(** The promise after a decoder that was constructed without a throw has
    emitted [emitted], oldest first. *)
Definition parseMultipartFormData (emitted : list parser_event) : promise parsed :=
  fold_left (fun p ev => parser_on ev p) emitted pending.

(** How many of the notifications changed the state of the promise. *)
Fixpoint settlements (p : promise parsed) (emitted : list parser_event) : nat :=
  match emitted with
  | [] => 0
  | ev :: later =>
      (if is_pending p && negb (is_pending (parser_on ev p)) then 1 else 0)
      + settlements (parser_on ev p) later
  end.

(** ** The world outside the handler *)

(** The argument of [s3.upload] built at lines 65-69. [Bucket] is
    [process.env.file_s3_bucket_name], [undefined] when the variable is not
    set; [Body] is the file record itself. *)
Record upload_options : Type := {
  Bucket : option string;
  Key : string;
  Body : FileRecord
}.

Inductive console_entry : Type :=
| console_log (line : string)
| console_error (err : js_error).

(** What an invocation leaves behind: how many identifiers [uuidv4] has
    handed out, the uploads given to the S3 client (oldest first) and the
    lines written to the console (oldest first). The S3 client is asked for
    nothing but uploads. *)
Record world : Type := {
  uuid_calls : nat;
  s3_uploads : list upload_options;
  console : list console_entry
}.

Definition start_of_invocation : world :=
  {| uuid_calls := 0; s3_uploads := []; console := [] |}.

Definition write_console (entry : console_entry) (w : world) : world :=
  {| uuid_calls := uuid_calls w;
     s3_uploads := s3_uploads w;
     console := console w ++ [entry] |}.

(** The state of one call of [uploadFileIntoS3] (and of the arrow function
    around it at lines 23-25, which only awaits it). *)
Inductive task : Type :=
| awaiting_s3 (options : upload_options)
| task_fulfilled
| task_rejected (err : js_error).

(** The names bound where the template literal of line 74 is evaluated: the
    module's constants, the parameter and locals of [uploadFileIntoS3], the
    names Node's module wrapper binds, and the globals the file refers to. *)
Definition bound_identifiers : list string :=
  [ "Multipart"; "AWS"; "s3"; "uuidv4"; "parseMultipartFormData";
    "uploadFileIntoS3"; "getFileExtension"; "file"; "ext"; "options";
    "exports"; "require"; "module"; "__filename"; "__dirname";
    "process"; "console"; "Promise"; "Error" ].

(** Reading an identifier: [None] when it is bound, the [ReferenceError]
    thrown otherwise. *)
Definition read_identifier (name : string) : option js_error :=
  if bool_decide (name ∈ bound_identifiers) then None
  else Some (ReferenceError (name +:+ " is not defined")).

Definition http_ok : nat := 200.
Definition http_created : nat := 201.

Record response : Type := { statusCode : nat }.

Section Handler.

(** [uuidv4 k] is what the [k]-th call of [uuidv4()] returns. *)
Variable uuidv4 : nat -> string.

(** [process.env]. *)
Variable env : gmap string string.

(** [s3_answer i] is how the upload of the file at position [i] ends:
    [None] when [s3.upload(options).promise()] is fulfilled, [Some err]
    when it is rejected with [err]. *)
Variable s3_answer : nat -> option js_error.

(** ** [uploadFileIntoS3] (lines 63-80) *)

(** Lines 64-72, up to the [await]: the extension is derived (a throw
    rejects the call at once, before any identifier is generated), the
    options are built and the upload is handed to the S3 client. *)
Definition uploadFileIntoS3_begin (file : FileRecord) (w : world) : task * world :=
  match getFileExtension file with
  | inl err => (task_rejected err, w)
  | inr ext =>
      let options :=
        {| Bucket := env !! "file_s3_bucket_name";
           Key := uuidv4 (uuid_calls w) +:+ "." +:+ ext;
           Body := file |} in
      (awaiting_s3 options,
       {| uuid_calls := S (uuid_calls w);
          s3_uploads := s3_uploads w ++ [options];
          console := console w |})
  end.

(** Lines 76-79: the [catch] block. *)
Definition uploadFileIntoS3_catch (err : js_error) (w : world) : task * world :=
  (task_rejected err, write_console (console_error err) w).

(** Lines 72-79, from the [await] on. When the upload is fulfilled the
    argument of [console.log] is evaluated inside the [try]: it reads
    [process.env.file_s3_bucket_name] and then [fileName]. *)
Definition uploadFileIntoS3_resume (answer : option js_error) (w : world) : task * world :=
  match answer with
  | Some err => uploadFileIntoS3_catch err w
  | None =>
      match read_identifier "fileName" with
      | Some err => uploadFileIntoS3_catch err w
      | None =>
          (task_fulfilled,
           write_console
             (console_log ("File uploaded into S3 bucket: " +:+ dquote
                             +:+ interpolate (env !! "file_s3_bucket_name")
                             +:+ dquote)) w)
      end
  end.

(** One call of [uploadFileIntoS3] from start to end, [answer] being what
    the S3 client says to its upload if it comes to that. *)
Definition uploadFileIntoS3 (file : FileRecord) (answer : option js_error) (w : world)
  : task * world :=
  match uploadFileIntoS3_begin file w with
  | (awaiting_s3 _, w1) => uploadFileIntoS3_resume answer w1
  | settled => settled
  end.

(** ** [Promise.all(files.map(...))] (lines 22-26) *)

(** [files.map]: the arrow function is called on every file in turn, and
    each call runs until its first [await]. *)
Fixpoint map_uploads (items : list FileRecord) (w : world) : list task * world :=
  match items with
  | [] => ([], w)
  | file :: rest =>
      let '(t, w1) := uploadFileIntoS3_begin file w in
      let '(ts, w2) := map_uploads rest w1 in
      (t :: ts, w2)
  end.

(** The uploads that [files.map] hands to the S3 client for [items], the
    first of them with the [k]-th identifier: one for each file that
    [getFileExtension] accepts, in the order of the files. *)
Fixpoint issued (items : list FileRecord) (k : nat) : list upload_options :=
  match items with
  | [] => []
  | file :: rest =>
      match getFileExtension file with
      | inl _ => issued rest k
      | inr ext =>
          {| Bucket := env !! "file_s3_bucket_name";
             Key := uuidv4 k +:+ "." +:+ ext;
             Body := file |} :: issued rest (S k)
      end
  end.

Definition is_fulfilled (t : task) : bool :=
  match t with
  | task_fulfilled => true
  | _ => false
  end.

(** One task settling, as [Promise.all] sees it: the first rejection
    rejects the aggregate; it is fulfilled once every task is. *)
Definition all_notice (t : task) (tasks : list task) (all : promise unit) : promise unit :=
  match t with
  | task_rejected err => reject err all
  | task_fulfilled => if forallb is_fulfilled tasks then resolve tt all else all
  | awaiting_s3 _ => all
  end.

(** The calls that were rejected before their first [await] reach
    [Promise.all] first, in the order of the array: they need no answer
    from the network. *)
Definition all_start (tasks : list task) : promise unit :=
  fold_left (fun all t => all_notice t tasks all) tasks
            (if forallb is_fulfilled tasks then fulfilled tt else pending).

(** The upload of the file at position [i] completes. Nothing happens if
    no upload of that position is in flight. *)
Definition complete (i : nat) (st : list task * promise unit * world)
  : list task * promise unit * world :=
  let '(tasks, all, w) := st in
  match tasks !! i with
  | Some (awaiting_s3 _) =>
      let '(t, w') := uploadFileIntoS3_resume (s3_answer i) w in
      let tasks' := <[i := t]> tasks in
      (tasks', all_notice t tasks' all, w')
  | _ => st
  end.

(** The uploads complete one after the other; [completions] lists the
    positions of their files in the order of completion. *)
Definition run (completions : list nat) (st : list task * promise unit * world)
  : list task * promise unit * world :=
  fold_left (fun st i => complete i st) completions st.

(** The dispatch of lines 22-26. *)
Definition dispatch (items : list FileRecord) (completions : list nat) (w : world)
  : list task * promise unit * world :=
  let '(tasks, w1) := map_uploads items w in
  run completions (tasks, all_start tasks, w1).

(** ** [upload] (lines 13-31) *)

(** [files == null || files.length == 0] *)
Definition no_files (fs : js_files) : bool :=
  match fs with
  | files_undefined | files_null => true
  | files_array items => Nat.eqb (length items) 0
  end.

Definition items_of (fs : js_files) : list FileRecord :=
  match fs with
  | files_array items => items
  | _ => []
  end.

(** What an invocation amounts to: the promise the handler returns, the
    state of each per-file call, and the world it leaves. *)
Record invocation : Type := {
  returned : promise response;
  per_file : list task;
  after : world
}.

Definition upload (emitted : list parser_event) (completions : list nat) : invocation :=
  match parseMultipartFormData emitted with
  | pending =>
      {| returned := pending; per_file := []; after := start_of_invocation |}
  | rejected err =>
      {| returned := rejected err; per_file := []; after := start_of_invocation |}
  | fulfilled result =>
      if no_files (files result) then
        {| returned := fulfilled {| statusCode := http_ok |};
           per_file := [];
           after := start_of_invocation |}
      else
        let '(tasks, all, w) :=
          dispatch (items_of (files result)) completions start_of_invocation in
        {| returned :=
             match all with
             | pending => pending
             | rejected err => rejected err
             | fulfilled _ => fulfilled {| statusCode := http_created |}
             end;
           per_file := tasks;
           after := w |}
  end.

End Handler.

(** ** The decoder from its construction on (lines 40-50) *)

(** What [new Multipart(event)] does at line 41, inside the executor of the
    promise: it throws, or it returns a decoder, which the two handlers are
    subscribed to and which then delivers its notifications. *)
Inductive Multipart : Type :=
| Multipart_throws (err : js_error)
| Multipart_emits (emitted : list parser_event).

(** [parseMultipartFormData(event)], the event seen through what the decoder
    does with it. A throw inside the executor rejects the promise. *)
Definition parseMultipartFormData_event (decoder : Multipart) : promise parsed :=
  match decoder with
  | Multipart_throws err => reject err pending
  | Multipart_emits emitted => parseMultipartFormData emitted
  end.

(** [upload(event)] likewise: the [await] of line 14 re-throws the rejection
    of the promise, and nothing after it runs. *)
Definition upload_event (uuidv4 : nat -> string) (env : gmap string string)
           (s3_answer : nat -> option js_error)
           (decoder : Multipart) (completions : list nat) : invocation :=
  match decoder with
  | Multipart_throws err =>
      {| returned := rejected err; per_file := []; after := start_of_invocation |}
  | Multipart_emits emitted => upload uuidv4 env s3_answer emitted completions
  end.


(** ** Vocabulary of the statements *)

(** The error of reading [fileName] at line 74. *)
Definition fileName_unbound : js_error := ReferenceError "fileName is not defined".

Definition unfulfilled (t : task) : Prop := is_fulfilled t = false.

Fixpoint first_rejection (tasks : list task) : option js_error :=
  match tasks with
  | [] => None
  | task_rejected err :: _ => Some err
  | _ :: rest => first_rejection rest
  end.

Definition supported (file : FileRecord) : Prop :=
  exists ext, getFileExtension file = inr ext.

Definition awaiting (t : task) : Prop :=
  exists options, t = awaiting_s3 options.

(** ** Keys *)

(** A character of the class [[0-9a-f-]]. *)
Definition uuid_char (c : ascii) : bool :=
  let n := nat_of_ascii c in
  ((48 <=? n)%nat && (n <=? 57)%nat) || ((97 <=? n)%nat && (n <=? 102)%nat)
  || (n =? 45)%nat.

(** [matches_key n suffix s]: [s] matches [^[0-9a-f-]{n}suffix$], the suffix
    taken literally. *)
Fixpoint matches_key (n : nat) (suffix : string) (s : string) : bool :=
  match n with
  | 0 => bool_decide (s = suffix)
  | S m =>
      match s with
      | String c rest => uuid_char c && matches_key m suffix rest
      | EmptyString => false
      end
  end.

(** The text of a version-4 identifier as [uuid/v4] prints it: 36 characters
    of the class. *)
Definition is_uuid_text (s : string) : bool := matches_key 36 "" s.

(** ** Sample data *)

Definition sample_hex (k : nat) : ascii :=
  nth (k mod 16)
      [ "0"; "1"; "2"; "3"; "4"; "5"; "6"; "7";
        "8"; "9"; "a"; "b"; "c"; "d"; "e"; "f" ]%char
      "0"%char.

(** A generator that hands out identifiers differing in their last digit. *)
Definition sample_uuidv4 (k : nat) : string :=
  "1b9d6bcd-bbfd-4b2d-9b5d-ab8dfbbd4be" +:+ String (sample_hex k) EmptyString.

Definition sample_env : gmap string string :=
  {[ "file_s3_bucket_name" := "uploads" ]}.

Definition sample_jpeg : FileRecord :=
  {| headers := Some {[ "content-type" := "image/jpeg" ]}; content := "abc" |}.

Definition sample_png : FileRecord :=
  {| headers := Some {[ "content-type" := "image/png" ]}; content := "xyz" |}.

Definition sample_headless : FileRecord :=
  {| headers := None; content := "abc" |}.

Definition all_succeed : nat -> option js_error := fun _ => None.

(** An S3 client that accepts the upload of every file but the second. *)
Definition second_fails (err : js_error) : nat -> option js_error :=
  fun i => if (i =? 1)%nat then Some err else None.

(** ** Vocabulary of the further facts *)

(** The error of the first file, in the order of the array, that
    [getFileExtension] refuses. *)
Fixpoint first_refusal (items : list FileRecord) : option js_error :=
  match items with
  | [] => None
  | file :: rest =>
      match getFileExtension file with
      | inl err => Some err
      | inr _ => first_refusal rest
      end
  end.

(** The first completion that concerns one of [n] files. *)
Definition first_completion (n : nat) (completions : list nat) : option nat :=
  List.find (fun i : nat => (i <? n)%nat) completions.

(** How many calls are still suspended at their [await]. *)
Fixpoint in_flight (tasks : list task) : nat :=
  match tasks with
  | [] => 0
  | awaiting_s3 _ :: rest => S (in_flight rest)
  | _ :: rest => in_flight rest
  end.

Definition is_console_error (entry : console_entry) : Prop :=
  exists err, entry = console_error err.


(** A part that declares a content type beside another header. *)
Definition sample_png_disposed : FileRecord :=
  {| headers := Some {[ "content-type" := "image/png";
                        "content-disposition" := "form-data" ]};
     content := "other bytes" |}.


(** * Properties *)

(** ** Extension derivation *)

Lemma loose_eq_string (t s : string) : loose_eq (Some t) s = bool_decide (s = t).
Proof.
  unfold loose_eq. destruct (decide (t = s)) as [-> | Hne].
  - by rewrite !bool_decide_eq_true_2.
  - rewrite !bool_decide_eq_false_2; [done | congruence | done].
Qed.

(** On a record with headers, [getFileExtension] is the lookup of the
    declared content type in [extension_table]. *)
Lemma getFileExtension_table (hs : gmap string string) (body : string) :
  getFileExtension {| headers := Some hs; content := body |} =
  match hs !! "content-type" with
  | Some ct =>
      match table_lookup extension_table ct with
      | Some ext => inr ext
      | None => inl (UnsupportedContentTypeError (Some ct))
      end
  | None => inl (UnsupportedContentTypeError None)
  end.
Proof.
  unfold getFileExtension, extension_table. cbn [headers table_lookup].
  destruct (hs !! "content-type") as [ct |]; [| reflexivity].
  rewrite !loose_eq_string.
  repeat (case_bool_decide; [reflexivity |]).
  reflexivity.
Qed.

Lemma unsupported_is_not_missing (ct : option string) :
  UnsupportedContentTypeError ct ≠ MissingHeadersError.
Proof. unfold UnsupportedContentTypeError, MissingHeadersError. cbn. discriminate. Qed.

Lemma getFileExtension_missing_iff (file : FileRecord) :
  getFileExtension file = inl MissingHeadersError ↔ headers file = None.
Proof.
  destruct file as [[hs |] body]; cbn [headers].
  - split; [| discriminate]. rewrite getFileExtension_table.
    destruct (hs !! "content-type") as [ct |].
    + destruct (table_lookup extension_table ct); [discriminate |].
      intros H. destruct (unsupported_is_not_missing (Some ct)). congruence.
    + intros H. destruct (unsupported_is_not_missing None). congruence.
  - split; reflexivity.
Qed.

(** ** The dispatch *)

Section Dispatch_facts.

Variable uuidv4 : nat -> string.
Variable env : gmap string string.
Variable s3_answer : nat -> option js_error.

Lemma read_fileName : read_identifier "fileName" = Some fileName_unbound.
Proof. reflexivity. Qed.

Lemma resume_rejects (answer : option js_error) (w : world) :
  uploadFileIntoS3_resume env answer w =
  uploadFileIntoS3_catch (default fileName_unbound answer) w.
Proof.
  unfold uploadFileIntoS3_resume. destruct answer as [err |]; [reflexivity |].
  by rewrite read_fileName.
Qed.

Lemma map_uploads_world (items : list FileRecord) (w : world) :
  length (map_uploads uuidv4 env items w).1 = length items
  ∧ s3_uploads (map_uploads uuidv4 env items w).2
    = (s3_uploads w ++ issued uuidv4 env items (uuid_calls w))%list
  ∧ console (map_uploads uuidv4 env items w).2 = console w
  ∧ Forall unfulfilled (map_uploads uuidv4 env items w).1.
Proof.
  revert w. induction items as [| file rest IH]; intros w.
  - cbn. by rewrite app_nil_r.
  - cbn [map_uploads issued]. unfold uploadFileIntoS3_begin.
    destruct (getFileExtension file) as [err | ext].
    + destruct (IH w) as (Hlen & Hup & Hcon & Hun).
      destruct (map_uploads uuidv4 env rest w) as [ts w2]. cbn in *.
      repeat split; [by rewrite Hlen | done | done |].
      constructor; [reflexivity | done].
    + match goal with
      | |- context [map_uploads uuidv4 env rest ?w1] =>
          destruct (IH w1) as (Hlen & Hup & Hcon & Hun);
          destruct (map_uploads uuidv4 env rest w1) as [ts w2]
      end.
      cbn in *. repeat split; [by rewrite Hlen | | done |].
      * by rewrite Hup, <- app_assoc.
      * constructor; [reflexivity | done].
Qed.

Lemma map_uploads_rejected (items : list FileRecord) (w : world) (i : nat)
      (file : FileRecord) (err : js_error) :
  items !! i = Some file ->
  getFileExtension file = inl err ->
  (map_uploads uuidv4 env items w).1 !! i = Some (task_rejected err).
Proof.
  revert w i. induction items as [| f rest IH]; intros w i Hi Hext; [done |].
  cbn [map_uploads]. unfold uploadFileIntoS3_begin.
  destruct i as [| i]; cbn in Hi.
  - injection Hi as ->. rewrite Hext.
    by destruct (map_uploads uuidv4 env rest w).
  - destruct (getFileExtension f) as [e | ext].
    + specialize (IH w i Hi Hext).
      by destruct (map_uploads uuidv4 env rest w).
    + match goal with
      | |- context [map_uploads uuidv4 env rest ?w1] =>
          specialize (IH w1 i Hi Hext);
          by destruct (map_uploads uuidv4 env rest w1)
      end.
Qed.

(** The first file that [getFileExtension] refuses gives the first
    rejection among the tasks. *)
Lemma map_uploads_first_rejection (items : list FileRecord) (w : world) (i : nat)
      (file : FileRecord) (err : js_error) :
  items !! i = Some file ->
  getFileExtension file = inl err ->
  (forall j f, j < i -> items !! j = Some f -> exists ext, getFileExtension f = inr ext) ->
  first_rejection (map_uploads uuidv4 env items w).1 = Some err.
Proof.
  revert w i. induction items as [| f rest IH]; intros w i Hi Hext Hbefore; [done |].
  cbn [map_uploads]. unfold uploadFileIntoS3_begin.
  destruct i as [| i]; cbn in Hi.
  - injection Hi as ->. rewrite Hext.
    by destruct (map_uploads uuidv4 env rest w).
  - destruct (Hbefore 0 f) as [ext Hf]; [lia | done |]. rewrite Hf.
    match goal with
    | |- context [map_uploads uuidv4 env rest ?w1] =>
        specialize (IH w1 i Hi Hext);
        destruct (map_uploads uuidv4 env rest w1) as [ts w2]
    end.
    cbn. apply IH. intros j g Hj Hg. apply (Hbefore (S j) g); [lia | done].
Qed.

Lemma all_start_unfulfilled (tasks : list task) :
  tasks ≠ [] ->
  Forall unfulfilled tasks ->
  all_start tasks =
  match first_rejection tasks with
  | Some err => rejected err
  | None => pending
  end.
Proof.
  intros Hne Hun. unfold all_start.
  assert (forallb is_fulfilled tasks = false) as ->.
  { destruct tasks as [| t ts]; [done |]. inversion Hun as [| ? ? Ht _]; subst.
    cbn. by rewrite Ht. }
  assert (forall l (p : promise unit),
             Forall unfulfilled l ->
             fold_left (fun all t => all_notice t tasks all) l p =
             match p with
             | pending =>
                 match first_rejection l with
                 | Some err => rejected err
                 | None => pending
                 end
             | _ => p
             end) as Hfold.
  { induction l as [| t l IH]; intros p Hl; [by destruct p |].
    inversion Hl as [| ? ? Ht Hl']; subst. cbn [fold_left].
    rewrite (IH _ Hl'). destruct t as [options | | err]; [| discriminate Ht |].
    - by destruct p.
    - by destruct p. }
  by rewrite Hfold.
Qed.

(** What one completion does. *)
Lemma complete_awaiting (tasks : list task) (all : promise unit) (w : world)
      (i : nat) (options : upload_options) :
  tasks !! i = Some (awaiting_s3 options) ->
  complete env s3_answer i (tasks, all, w) =
  (<[i := task_rejected (default fileName_unbound (s3_answer i))]> tasks,
   reject (default fileName_unbound (s3_answer i)) all,
   write_console (console_error (default fileName_unbound (s3_answer i))) w).
Proof.
  intros Hi. unfold complete. rewrite Hi, resume_rejects. reflexivity.
Qed.

Lemma complete_idle (tasks : list task) (all : promise unit) (w : world) (i : nat) :
  (forall options, tasks !! i ≠ Some (awaiting_s3 options)) ->
  complete env s3_answer i (tasks, all, w) = (tasks, all, w).
Proof.
  intros Hi. unfold complete.
  destruct (tasks !! i) as [[options | | err] |] eqn:E; try reflexivity.
  by destruct (Hi options).
Qed.

(** A property that every completion preserves holds at the end. *)
Lemma run_preserves (P : list task * promise unit * world -> Prop) :
  (forall i st, P st -> P (complete env s3_answer i st)) ->
  forall completions st, P st -> P (run env s3_answer completions st).
Proof.
  intros Hstep completions. unfold run.
  induction completions as [| i rest IH]; intros st Hst; [done |].
  cbn [fold_left]. apply IH, Hstep, Hst.
Qed.

Lemma complete_cases (i : nat) (st : list task * promise unit * world) :
  complete env s3_answer i st = st
  ∨ exists options,
      st.1.1 !! i = Some (awaiting_s3 options)
      ∧ complete env s3_answer i st =
        (<[i := task_rejected (default fileName_unbound (s3_answer i))]> st.1.1,
         reject (default fileName_unbound (s3_answer i)) st.1.2,
         write_console (console_error (default fileName_unbound (s3_answer i))) st.2).
Proof.
  destruct st as [[tasks all] w]. cbn [fst snd].
  destruct (tasks !! i) as [[options | | err] |] eqn:E.
  - right. exists options. split; [done |]. by apply complete_awaiting with options.
  - left. apply complete_idle. congruence.
  - left. apply complete_idle. congruence.
  - left. apply complete_idle. congruence.
Qed.

(** Completions send nothing to the S3 client and generate no identifier. *)
Lemma run_requests (completions : list nat) (st : list task * promise unit * world) :
  s3_uploads (run env s3_answer completions st).2 = s3_uploads st.2
  ∧ uuid_calls (run env s3_answer completions st).2 = uuid_calls st.2.
Proof.
  apply (run_preserves
           (fun st' => s3_uploads st'.2 = s3_uploads st.2
                       ∧ uuid_calls st'.2 = uuid_calls st.2)); [| done].
  intros i st' Hst'. destruct (complete_cases i st') as [-> | (o & _ & ->)]; done.
Qed.


(** A rejected aggregate stays rejected with the same error. *)
Lemma run_rejected (completions : list nat) (st : list task * promise unit * world)
      (err : js_error) :
  st.1.2 = rejected err -> (run env s3_answer completions st).1.2 = rejected err.
Proof.
  intros Hst.
  apply (run_preserves (fun st' => st'.1.2 = rejected err)); [| done].
  intros i st' Hst'. destruct (complete_cases i st') as [-> | (o & _ & ->)]; [done |].
  cbn [fst snd]. by rewrite Hst'.
Qed.

(** A task that is rejected stays as it is. *)
Lemma run_task_rejected (completions : list nat) (st : list task * promise unit * world)
      (j : nat) (err : js_error) :
  st.1.1 !! j = Some (task_rejected err) ->
  (run env s3_answer completions st).1.1 !! j = Some (task_rejected err).
Proof.
  intros Hst.
  apply (run_preserves (fun st' => st'.1.1 !! j = Some (task_rejected err))); [| done].
  intros i st' Hst'. destruct (complete_cases i st') as [-> | (o & Ho & ->)]; [done |].
  cbn [fst snd]. destruct (decide (i = j)) as [-> | Hij]; [congruence |].
  by rewrite list_lookup_insert_ne.
Qed.

(** No task is ever fulfilled, and neither is the aggregate of a dispatch
    that has at least one task. *)
Lemma run_unfulfilled (completions : list nat) (st : list task * promise unit * world) :
  Forall unfulfilled st.1.1 ->
  (forall v, st.1.2 ≠ fulfilled v) ->
  Forall unfulfilled (run env s3_answer completions st).1.1
  ∧ forall v, (run env s3_answer completions st).1.2 ≠ fulfilled v.
Proof.
  intros Hun Hall.
  apply (run_preserves
           (fun st' => Forall unfulfilled st'.1.1 ∧ forall v, st'.1.2 ≠ fulfilled v));
    [| done].
  intros i st' [Hun' Hall']. destruct (complete_cases i st') as [-> | (o & Ho & ->)]; [done |].
  cbn [fst snd]. split.
  - apply Forall_insert; [done | reflexivity].
  - intros v. destruct (st'.1.2) as [| v' |] eqn:E; cbn; [discriminate | | discriminate].
    by destruct (Hall' v').
Qed.

End Dispatch_facts.

(** ** Parsing *)

Lemma parse_settled (later : list parser_event) (p : promise parsed) :
  is_pending p = false ->
  fold_left (fun p ev => parser_on ev p) later p = p.
Proof.
  induction later as [| ev later IH]; intros Hp; [done |].
  cbn [fold_left].
  assert (parser_on ev p = p) as -> by (destruct ev, p; done).
  by apply IH.
Qed.

Lemma parse_first (ev : parser_event) (later : list parser_event) :
  parseMultipartFormData (ev :: later) = parser_on ev pending.
Proof.
  unfold parseMultipartFormData. cbn [fold_left].
  apply parse_settled. by destruct ev.
Qed.

Lemma settlements_settled (later : list parser_event) (p : promise parsed) :
  is_pending p = false -> settlements p later = 0.
Proof.
  revert p. induction later as [| ev later IH]; intros p Hp; [done |].
  cbn [settlements]. rewrite Hp. cbn.
  apply IH. destruct ev, p; done.
Qed.

(** C8. Parsing settles with the first notification of the decoder, whatever
    follows: a "finish" first fulfils the promise with the fields and files
    of that notification, an "error" first rejects it with that error; of
    all the notifications exactly one changes the promise, and until the
    first one the promise is pending. *)
Theorem parse_first_signal_wins :
  forall (ev : parser_event) (later : list parser_event),
    parseMultipartFormData (ev :: later) =
      match ev with
      | finish result =>
          fulfilled {| fields := fields result; files := files result |}
      | error err => rejected err
      end
    ∧ settlements pending (ev :: later) = 1
    ∧ (forall more, parseMultipartFormData ((ev :: later) ++ more)
                    = parseMultipartFormData (ev :: later))
    ∧ parseMultipartFormData [] = pending.
Proof.
  intros ev later. repeat split.
  - rewrite parse_first. by destruct ev.
  - cbn [settlements]. rewrite settlements_settled; by destruct ev.
  - intros more. by rewrite <- app_comm_cons, !parse_first.
Qed.

(** ** The handler *)

Section Handler_facts.

Variable uuidv4 : nat -> string.
Variable env : gmap string string.
Variable s3_answer : nat -> option js_error.

Lemma upload_parse_error (err : js_error) (later : list parser_event)
      (completions : list nat) :
  upload uuidv4 env s3_answer (error err :: later) completions =
  {| returned := rejected err; per_file := []; after := start_of_invocation |}.
Proof. unfold upload. by rewrite parse_first. Qed.

Lemma upload_no_files (result : parsed) (later : list parser_event)
      (completions : list nat) :
  no_files (files result) = true ->
  upload uuidv4 env s3_answer (finish result :: later) completions =
  {| returned := fulfilled {| statusCode := http_ok |};
     per_file := [];
     after := start_of_invocation |}.
Proof. intros Hno. unfold upload. rewrite parse_first. cbn. by rewrite Hno. Qed.

(** With at least one file the handler is the dispatch. *)
Lemma upload_some_files (fs : gmap string string) (items : list FileRecord)
      (later : list parser_event) (completions : list nat) :
  items ≠ [] ->
  upload uuidv4 env s3_answer
         (finish {| fields := fs; files := files_array items |} :: later) completions =
  let begun := map_uploads uuidv4 env items start_of_invocation in
  let st := run env s3_answer completions (begun.1, all_start begun.1, begun.2) in
  {| returned :=
       match st.1.2 with
       | pending => pending
       | rejected err => rejected err
       | fulfilled _ => fulfilled {| statusCode := http_created |}
       end;
     per_file := st.1.1;
     after := st.2 |}.
Proof.
  intros Hne. unfold upload. rewrite parse_first. cbn [parser_on resolve files fields].
  assert (no_files (files_array items) = false) as ->.
  { destruct items; [done | reflexivity]. }
  cbn [items_of]. unfold dispatch, run.
  destruct (map_uploads uuidv4 env items start_of_invocation) as [tasks w1].
  cbn [fst snd].
  by destruct (fold_left _ completions _) as [[tasks' all'] w'].
Qed.

End Handler_facts.

Lemma parse_event_rejected (decoder : Multipart) (err : js_error) :
  parseMultipartFormData_event decoder = rejected err
  <-> decoder = Multipart_throws err
      ∨ exists later, decoder = Multipart_emits (error err :: later).
Proof.
  split.
  - destruct decoder as [e | emitted]; cbn [parseMultipartFormData_event reject].
    + intros [= ->]. by left.
    + destruct emitted as [| ev later]; [discriminate |].
      rewrite parse_first. destruct ev as [result | e]; [discriminate |].
      intros [= ->]. right. by exists later.
  - intros [-> | [later ->]]; [reflexivity |].
    cbn [parseMultipartFormData_event]. by rewrite parse_first.
Qed.

(** C4, as the code has it. Parsing fails in two cases and in no other: the
    construction of the decoder throws, or the first notification the decoder
    delivers is an error. In both the handler is rejected with that very
    error, whatever the decoder emits afterwards and whatever the S3 client
    would answer; no upload is given to the S3 client, no identifier is
    generated and nothing is written to the console. *)
Theorem upload_decoder_failure_aborts :
  forall (uuidv4 : nat -> string) (env : gmap string string)
         (s3_answer : nat -> option js_error)
         (err : js_error) (later : list parser_event) (completions : list nat),
    (forall decoder : Multipart,
        parseMultipartFormData_event decoder = rejected err
        <-> decoder = Multipart_throws err
            ∨ exists later', decoder = Multipart_emits (error err :: later'))
    ∧ (returned (upload_event uuidv4 env s3_answer (Multipart_throws err) completions)
         = rejected err
       ∧ s3_uploads (after (upload_event uuidv4 env s3_answer
                              (Multipart_throws err) completions)) = []
       ∧ after (upload_event uuidv4 env s3_answer (Multipart_throws err) completions)
         = start_of_invocation)
    ∧ (returned (upload_event uuidv4 env s3_answer
                   (Multipart_emits (error err :: later)) completions)
         = rejected err
       ∧ s3_uploads (after (upload_event uuidv4 env s3_answer
                              (Multipart_emits (error err :: later)) completions)) = []
       ∧ after (upload_event uuidv4 env s3_answer
                  (Multipart_emits (error err :: later)) completions)
         = start_of_invocation).
Proof.
  intros. split; [intros decoder; apply parse_event_rejected |].
  split; [done |]. cbn [upload_event]. by rewrite upload_parse_error.
Qed.

(** C4 as stated fails when the decoder reports its error after a
    completion: the completion has settled the promise, the error is
    ignored, the file of the completion is uploaded, and what the handler is
    rejected with is not the decoder's error. *)
Lemma late_decoder_error_is_ignored :
  let report := LibraryError "Unexpected end of multipart data" in
  let emitted :=
    [ finish {| fields := ∅; files := files_array [sample_jpeg] |}; error report ] in
  let inv :=
    upload_event sample_uuidv4 sample_env all_succeed (Multipart_emits emitted) [0] in
  error report ∈ emitted
  ∧ returned inv ≠ rejected report
  ∧ s3_uploads (after inv) ≠ []
  ∧ length (s3_uploads (after inv)) = 1
  ∧ returned inv = rejected fileName_unbound.
Proof.
  cbv zeta. split.
  { apply elem_of_cons. right. apply elem_of_cons. by left. }
  assert (returned (upload_event sample_uuidv4 sample_env all_succeed
                      (Multipart_emits
                         [ finish {| fields := ∅; files := files_array [sample_jpeg] |};
                           error (LibraryError "Unexpected end of multipart data") ])
                      [0])
          = rejected fileName_unbound) as Hret by (vm_compute; reflexivity).
  assert (length (s3_uploads (after (upload_event sample_uuidv4 sample_env all_succeed
                      (Multipart_emits
                         [ finish {| fields := ∅; files := files_array [sample_jpeg] |};
                           error (LibraryError "Unexpected end of multipart data") ])
                      [0])))
          = 1) as Hlen by (vm_compute; reflexivity).
  split; [rewrite Hret; discriminate |].
  split; [intros E; rewrite E in Hlen; discriminate |].
  split; [exact Hlen | exact Hret].
Qed.

(** C5. When parsing yields an empty array of files, whatever the form
    fields are, the handler is fulfilled with status 200 and gives the S3
    client nothing to do. *)
Theorem upload_zero_files :
  forall (uuidv4 : nat -> string) (env : gmap string string)
         (s3_answer : nat -> option js_error)
         (fs : gmap string string) (later : list parser_event)
         (completions : list nat),
    returned (upload uuidv4 env s3_answer
                (finish {| fields := fs; files := files_array [] |} :: later)
                completions)
      = fulfilled {| statusCode := 200 |}
    ∧ s3_uploads (after (upload uuidv4 env s3_answer
                (finish {| fields := fs; files := files_array [] |} :: later)
                completions))
      = [].
Proof. intros. by rewrite upload_no_files. Qed.

(** C9. When parsing yields [null] or [undefined] for the files, the handler
    behaves as for an empty array: it is fulfilled with status 200 (it is
    not rejected), and nothing is given to the S3 client. *)
Theorem upload_nullish_files :
  forall (uuidv4 : nat -> string) (env : gmap string string)
         (s3_answer : nat -> option js_error)
         (fs : gmap string string) (later : list parser_event)
         (completions : list nat),
    (returned (upload uuidv4 env s3_answer
                 (finish {| fields := fs; files := files_null |} :: later) completions)
       = fulfilled {| statusCode := 200 |}
     ∧ s3_uploads (after (upload uuidv4 env s3_answer
                 (finish {| fields := fs; files := files_null |} :: later) completions))
       = [])
    ∧ (returned (upload uuidv4 env s3_answer
                 (finish {| fields := fs; files := files_undefined |} :: later) completions)
       = fulfilled {| statusCode := 200 |}
     ∧ s3_uploads (after (upload uuidv4 env s3_answer
                 (finish {| fields := fs; files := files_undefined |} :: later) completions))
       = []).
Proof. intros. by rewrite !upload_no_files. Qed.

(** ** Per-file errors *)

(** C3. On a record with headers the extension is the exact lookup of the
    declared content type in the six-entry table; when the lookup finds
    nothing (a type outside the table, or none declared) [getFileExtension]
    throws the unsupported-content-type error carrying the declared value,
    and [uploadFileIntoS3] is rejected with it, leaving the world as it was:
    no extension is made up, no identifier is generated and no upload is
    issued. *)
Theorem extension_is_exact_table_lookup :
  forall (uuidv4 : nat -> string) (env : gmap string string)
         (hs : gmap string string) (body : string)
         (answer : option js_error) (w : world),
    length extension_table = 6
    ∧ match hs !! "content-type" ≫= table_lookup extension_table with
      | Some ext =>
          getFileExtension {| headers := Some hs; content := body |} = inr ext
      | None =>
          getFileExtension {| headers := Some hs; content := body |}
            = inl (UnsupportedContentTypeError (hs !! "content-type"))
          ∧ uploadFileIntoS3 uuidv4 env
              {| headers := Some hs; content := body |} answer w
            = (task_rejected (UnsupportedContentTypeError (hs !! "content-type")), w)
      end.
Proof.
  intros. split; [reflexivity |].
  unfold uploadFileIntoS3, uploadFileIntoS3_begin. rewrite getFileExtension_table.
  destruct (hs !! "content-type") as [ct |]; cbn [mbind option_bind]; [| done].
  by destruct (table_lookup extension_table ct).
Qed.

(** C10. A record whose headers are present but hold no "content-type" entry
    makes [getFileExtension] throw the unsupported-content-type error, its
    message carrying the text "undefined"; that error is not the
    missing-headers error, which is thrown exactly when the headers
    themselves are absent. *)
Theorem absent_content_type_is_unsupported :
  forall (hs : gmap string string) (body : string),
    hs !! "content-type" = None ->
    getFileExtension {| headers := Some hs; content := body |}
      = inl (UnsupportedContentTypeError None)
    ∧ UnsupportedContentTypeError None
      = Error ("Unsupported content type " +:+ dquote +:+ "undefined" +:+ dquote +:+ ".")
    ∧ UnsupportedContentTypeError None ≠ MissingHeadersError
    ∧ forall file : FileRecord,
        getFileExtension file = inl MissingHeadersError <-> headers file = None.
Proof.
  intros hs body Hct. repeat split.
  - by rewrite getFileExtension_table, Hct.
  - apply unsupported_is_not_missing.
  - apply getFileExtension_missing_iff.
  - apply getFileExtension_missing_iff.
Qed.

Lemma absent_content_type_is_unsupported_witness :
  ({[ "content-disposition" := "form-data" ]} : gmap string string) !! "content-type" = None
  ∧ getFileExtension
      {| headers := Some {[ "content-disposition" := "form-data" ]}; content := "abc" |}
    = inl (UnsupportedContentTypeError None).
Proof.
  split; [vm_compute; reflexivity |].
  apply (absent_content_type_is_unsupported
           {[ "content-disposition" := "form-data" ]} "abc").
  vm_compute; reflexivity.
Defined.

Lemma first_rejection_exists (tasks : list task) (i : nat) (err : js_error) :
  tasks !! i = Some (task_rejected err) -> is_Some (first_rejection tasks).
Proof.
  revert i. induction tasks as [| t ts IH]; intros i Hi; [done |].
  destruct t as [options | | e]; cbn [first_rejection]; [| | by eexists].
  - destruct i as [| i]; [done |]. by apply (IH i).
  - destruct i as [| i]; [done |]. by apply (IH i).
Qed.

(** C7. A file record without headers makes [uploadFileIntoS3] reject with
    the missing-headers error before anything is sent to the S3 client; in a
    batch that holds such a record the call for it ends rejected with that
    error and the handler is rejected (never fulfilled, never left pending),
    whatever the other files are, whatever the S3 client answers and in
    whatever order; the handler's error is the missing-headers error itself
    when [getFileExtension] accepts every file placed before the record. *)
Theorem missing_headers_fails_batch :
  forall (uuidv4 : nat -> string) (env : gmap string string)
         (s3_answer : nat -> option js_error)
         (fs : gmap string string) (items : list FileRecord)
         (later : list parser_event) (completions : list nat)
         (i : nat) (body : string),
    items !! i = Some {| headers := None; content := body |} ->
    (forall answer w,
        uploadFileIntoS3 uuidv4 env {| headers := None; content := body |} answer w
        = (task_rejected MissingHeadersError, w))
    ∧ per_file (upload uuidv4 env s3_answer
                  (finish {| fields := fs; files := files_array items |} :: later)
                  completions) !! i
      = Some (task_rejected MissingHeadersError)
    ∧ (exists err,
          returned (upload uuidv4 env s3_answer
                      (finish {| fields := fs; files := files_array items |} :: later)
                      completions)
          = rejected err)
    ∧ ((forall j f, j < i -> items !! j = Some f ->
                    exists ext, getFileExtension f = inr ext) ->
       returned (upload uuidv4 env s3_answer
                   (finish {| fields := fs; files := files_array items |} :: later)
                   completions)
       = rejected MissingHeadersError).
Proof.
  intros uuidv4 env s3_answer fs items later completions i body Hi.
  assert (items ≠ []) as Hne by (intros ->; done).
  rewrite (upload_some_files uuidv4 env s3_answer fs items later completions Hne).
  cbn zeta. cbn [returned per_file after].
  destruct (map_uploads_world uuidv4 env items start_of_invocation)
    as (Hlen & _ & _ & Hun).
  pose proof (map_uploads_rejected uuidv4 env items start_of_invocation i _
                MissingHeadersError Hi eq_refl) as Htask.
  set (tasks := (map_uploads uuidv4 env items start_of_invocation).1) in *.
  assert (tasks ≠ []) as Htasks by (intros E; by rewrite E in Htask).
  pose proof (all_start_unfulfilled tasks Htasks Hun) as Hstart.
  split; [done |]. split.
  { by apply run_task_rejected. }
  split.
  - destruct (first_rejection_exists tasks i _ Htask) as [err Herr].
    rewrite Herr in Hstart. exists err.
    by rewrite (run_rejected env s3_answer completions _ err).
  - intros Hbefore.
    pose proof (map_uploads_first_rejection uuidv4 env items start_of_invocation i _
                  MissingHeadersError Hi eq_refl Hbefore) as Hfirst.
    fold tasks in Hfirst. rewrite Hfirst in Hstart.
    by rewrite (run_rejected env s3_answer completions _ MissingHeadersError).
Qed.

(** ** Batches of supported files *)

Section Supported_facts.

Variable uuidv4 : nat -> string.
Variable env : gmap string string.
Variable s3_answer : nat -> option js_error.

Lemma issued_supported (items : list FileRecord) (k : nat) :
  Forall supported items ->
  length (issued uuidv4 env items k) = length items
  ∧ forall i file,
      items !! i = Some file ->
      exists ext,
        getFileExtension file = inr ext
        ∧ issued uuidv4 env items k !! i
          = Some {| Bucket := env !! "file_s3_bucket_name";
                    Key := uuidv4 (k + i) +:+ "." +:+ ext;
                    Body := file |}.
Proof.
  intros Hall. revert k. induction Hall as [| f rest [ext Hf] Hrest IH]; intros k.
  - split; [done |]. intros i file Hi. done.
  - cbn [issued]. rewrite Hf. destruct (IH (S k)) as [Hlen Hat]. split.
    + cbn. by rewrite Hlen.
    + intros [| i] file Hi; cbn in Hi.
      * injection Hi as <-. exists ext. split; [done |]. cbn.
        by rewrite Nat.add_0_r.
      * destruct (Hat i file Hi) as (e & He & Hl). exists e. split; [done |].
        rewrite lookup_cons. cbn [Nat.pred]. rewrite Hl.
        by replace (k + S i) with (S k + i) by lia.
Qed.

Lemma map_uploads_awaiting (items : list FileRecord) (w : world) :
  Forall supported items ->
  Forall awaiting (map_uploads uuidv4 env items w).1.
Proof.
  intros Hall. revert w. induction Hall as [| f rest [ext Hf] Hrest IH]; intros w.
  - constructor.
  - cbn [map_uploads]. unfold uploadFileIntoS3_begin. rewrite Hf.
    match goal with
    | |- context [map_uploads uuidv4 env rest ?w1] =>
        specialize (IH w1); destruct (map_uploads uuidv4 env rest w1) as [ts w2]
    end.
    cbn in *. constructor; [by eexists | done].
Qed.

Lemma awaiting_no_rejection (tasks : list task) :
  Forall awaiting tasks -> first_rejection tasks = None.
Proof. induction 1 as [| t ts [o ->] _ IH]; [done |]. exact IH. Qed.

Lemma run_awaiting (completions : list nat) (tasks : list task) (w : world) :
  Forall awaiting tasks ->
  (forall i : nat, i < length tasks -> s3_answer i = None) ->
  (run env s3_answer completions (tasks, pending, w)).1.2 =
  if existsb (fun i : nat => (i <? length tasks)%nat) completions
  then rejected fileName_unbound else pending.
Proof.
  intros Haw Hok. revert w. induction completions as [| i rest IH]; intros w; [done |].
  unfold run in *. cbn [fold_left existsb].
  destruct (Nat.ltb_spec i (length tasks)) as [Hlt | Hge]; cbn [orb].
  - destruct (lookup_lt_is_Some_2 tasks i Hlt) as [t Ht].
    destruct (proj1 (Forall_lookup _ _) Haw i t Ht) as [o ->].
    rewrite (complete_awaiting env s3_answer tasks pending w i o Ht).
    rewrite (Hok i Hlt). cbn [default reject].
    by apply (run_rejected env s3_answer rest).
  - rewrite complete_idle; [apply IH |].
    intros o. by rewrite (lookup_ge_None_2 tasks i).
Qed.

End Supported_facts.

Lemma append_inj_prefix (s1 s2 t1 t2 : string) :
  String.length s1 = String.length s2 -> s1 +:+ t1 = s2 +:+ t2 -> s1 = s2.
Proof.
  revert s2. induction s1 as [| a s1 IH]; intros [| b s2] Hlen Heq; try done.
  cbn in Hlen, Heq. injection Heq as -> Heq. f_equal. apply IH; [lia | done].
Qed.

(** ** Keys *)

Lemma matches_key_length (n : nat) (s : string) :
  matches_key n "" s = true -> String.length s = n.
Proof.
  revert s. induction n as [| n IH]; intros s H; cbn [matches_key] in H.
  - by apply bool_decide_eq_true_1 in H as ->.
  - destruct s as [| c rest]; [done |]. apply andb_true_iff in H as [_ H].
    cbn [String.length]. f_equal. by apply IH.
Qed.

Lemma matches_key_append (n : nat) (suffix s : string) :
  matches_key n "" s = true -> matches_key n suffix (s +:+ suffix) = true.
Proof.
  revert s. induction n as [| n IH]; intros s H; cbn [matches_key] in H.
  - apply bool_decide_eq_true_1 in H as ->. cbn. by apply bool_decide_eq_true_2.
  - destruct s as [| c rest]; [done |]. apply andb_true_iff in H as [Hc H].
    change (String c rest +:+ suffix) with (String c (rest +:+ suffix)).
    cbn [matches_key]. rewrite Hc. cbn [andb]. by apply IH.
Qed.

Example sample_uuid_ok : is_uuid_text (sample_uuidv4 0) = true.
Proof. vm_compute. reflexivity. Qed.

Example sample_jpeg_ext : getFileExtension sample_jpeg = inr "jpg".
Proof. vm_compute. reflexivity. Qed.

Example sample_png_ext : getFileExtension sample_png = inr "png".
Proof. vm_compute. reflexivity. Qed.

Example sample_case_matters :
  getFileExtension {| headers := Some {[ "content-type" := "image/JPEG" ]}; content := "abc" |}
  = inl (UnsupportedContentTypeError (Some "image/JPEG")).
Proof. vm_compute. reflexivity. Qed.

Example sample_pdf :
  getFileExtension {| headers := Some {[ "content-type" := "application/pdf" ]}; content := "abc" |}
  = inl (Error ("Unsupported content type " +:+ dquote +:+ "application/pdf" +:+ dquote +:+ ".")).
Proof. vm_compute. reflexivity. Qed.

(** ** What a batch of supported files comes to *)

(** C1, as the code has it. For a batch of one or more files of supported
    content types, with identifiers that are well-formed and pairwise
    distinct and an S3 client that accepts every upload: exactly one upload
    per file is issued, in the order of the files, each with the file as its
    body and a key made of its own identifier, a dot and the extension of
    the file's content type, all keys distinct. The handler however is never
    fulfilled: once the first upload completes, its call evaluates the
    success line, which reads the unbound [fileName], and the handler is
    rejected with that [ReferenceError]; until then it is pending. *)
Theorem supported_batch_uploads_but_never_created :
  forall (uuidv4 : nat -> string) (env : gmap string string)
         (s3_answer : nat -> option js_error)
         (fs : gmap string string) (items : list FileRecord)
         (later : list parser_event) (completions : list nat),
    items ≠ [] ->
    Forall supported items ->
    (forall i : nat, i < length items -> s3_answer i = None) ->
    (forall i : nat, i < length items -> is_uuid_text (uuidv4 i) = true) ->
    NoDup (uuidv4 <$> seq 0 (length items)) ->
    let inv :=
      upload uuidv4 env s3_answer
             (finish {| fields := fs; files := files_array items |} :: later)
             completions in
    length (s3_uploads (after inv)) = length items
    ∧ (forall i file,
          items !! i = Some file ->
          exists ext put,
            getFileExtension file = inr ext
            ∧ s3_uploads (after inv) !! i = Some put
            ∧ Bucket put = env !! "file_s3_bucket_name"
            ∧ Key put = uuidv4 i +:+ "." +:+ ext
            ∧ Body put = file
            ∧ matches_key 36 ("." +:+ ext) (Key put) = true)
    ∧ NoDup (Key <$> s3_uploads (after inv))
    ∧ (forall resp, returned inv ≠ fulfilled resp)
    ∧ returned inv =
      if existsb (fun i : nat => (i <? length items)%nat) completions
      then rejected fileName_unbound else pending.
Proof.
  intros uuidv4 env s3_answer fs items later completions Hne Hsup Hok Hfmt Hdup inv.
  subst inv. rewrite (upload_some_files uuidv4 env s3_answer fs items later completions Hne).
  cbn zeta. cbn [returned after].
  destruct (map_uploads_world uuidv4 env items start_of_invocation)
    as (Hlen & Hup & _ & Hun).
  pose proof (map_uploads_awaiting uuidv4 env items start_of_invocation Hsup) as Haw.
  set (tasks := (map_uploads uuidv4 env items start_of_invocation).1) in *.
  set (w1 := (map_uploads uuidv4 env items start_of_invocation).2) in *.
  assert (tasks ≠ []) as Htasks.
  { intros E. rewrite E in Hlen. destruct items; done. }
  rewrite (all_start_unfulfilled tasks Htasks Hun), (awaiting_no_rejection tasks Haw).
  destruct (run_requests env s3_answer completions (tasks, pending, w1)) as [-> _].
  cbn [fst snd]. rewrite Hup. cbn [start_of_invocation s3_uploads uuid_calls app].
  destruct (issued_supported uuidv4 env items 0 Hsup) as [Hilen Hiat].
  assert (forall i file,
             items !! i = Some file ->
             exists ext put,
               getFileExtension file = inr ext
               ∧ issued uuidv4 env items 0 !! i = Some put
               ∧ Bucket put = env !! "file_s3_bucket_name"
               ∧ Key put = uuidv4 i +:+ "." +:+ ext
               ∧ Body put = file
               ∧ matches_key 36 ("." +:+ ext) (Key put) = true) as Hat.
  { intros i file Hi. destruct (Hiat i file Hi) as (ext & Hext & Hput).
    exists ext, {| Bucket := env !! "file_s3_bucket_name";
                   Key := uuidv4 i +:+ "." +:+ ext;
                   Body := file |}.
    cbn [Bucket Key Body]. do 5 (split; [done |]).
    apply matches_key_append, Hfmt. by eapply lookup_lt_Some. }
  rewrite (run_awaiting env s3_answer completions tasks w1 Haw)
    by (intros i Hi; apply Hok; by rewrite <- Hlen).
  rewrite Hlen. split; [done |]. split; [exact Hat |]. split; [| split].
  - apply NoDup_alt. intros i j key Hi Hj.
    rewrite list_lookup_fmap in Hi, Hj.
    destruct (issued uuidv4 env items 0 !! i) as [pi |] eqn:Ei; [| done].
    destruct (issued uuidv4 env items 0 !! j) as [pj |] eqn:Ej; [| done].
    cbn in Hi, Hj.
    assert (i < length items)%nat as Hil by (rewrite <- Hilen; by eapply lookup_lt_Some).
    assert (j < length items)%nat as Hjl by (rewrite <- Hilen; by eapply lookup_lt_Some).
    destruct (lookup_lt_is_Some_2 items i Hil) as [fi Hfi].
    destruct (lookup_lt_is_Some_2 items j Hjl) as [fj Hfj].
    destruct (Hat i fi Hfi) as (ei & qi & _ & Hqi & _ & Hki & _).
    destruct (Hat j fj Hfj) as (ej & qj & _ & Hqj & _ & Hkj & _).
    assert (qi = pi) as -> by congruence. assert (qj = pj) as -> by congruence.
    assert (uuidv4 i = uuidv4 j) as Huu.
    { apply (append_inj_prefix _ _ ("." +:+ ei) ("." +:+ ej)).
      - rewrite (matches_key_length 36 (uuidv4 i)), (matches_key_length 36 (uuidv4 j));
          [done | by apply Hfmt | by apply Hfmt].
      - congruence. }
    apply (proj1 (NoDup_alt _) Hdup i j (uuidv4 i)).
    + rewrite list_lookup_fmap, lookup_seq_lt; done.
    + rewrite list_lookup_fmap, lookup_seq_lt; [| done]. cbn. by rewrite Huu.
  - intros resp. by destruct (existsb _ completions).
  - by destruct (existsb _ completions).
Qed.

Lemma supported_batch_uploads_but_never_created_witness :
  [sample_jpeg; sample_png] ≠ []
  ∧ Forall supported [sample_jpeg; sample_png]
  ∧ (forall i : nat, i < 2 -> all_succeed i = None)
  ∧ (forall i : nat, i < 2 -> is_uuid_text (sample_uuidv4 i) = true)
  ∧ NoDup (sample_uuidv4 <$> seq 0 2)
  ∧ returned (upload sample_uuidv4 sample_env all_succeed
                [finish {| fields := ∅; files := files_array [sample_jpeg; sample_png] |}]
                [1; 0])
    = rejected fileName_unbound.
Proof.
  assert ([sample_jpeg; sample_png] ≠ []) as H1 by discriminate.
  assert (Forall supported [sample_jpeg; sample_png]) as H2.
  { repeat constructor; eexists; vm_compute; reflexivity. }
  assert (forall i : nat, i < 2 -> all_succeed i = None) as H3 by reflexivity.
  assert (forall i : nat, i < 2 -> is_uuid_text (sample_uuidv4 i) = true) as H4.
  { intros [| [| i]] Hi; [vm_compute; reflexivity | vm_compute; reflexivity | lia]. }
  assert (NoDup (sample_uuidv4 <$> seq 0 2)) as H5.
  { apply (bool_decide_unpack _). vm_compute. exact I. }
  pose proof (supported_batch_uploads_but_never_created
                sample_uuidv4 sample_env all_succeed ∅ [sample_jpeg; sample_png]
                [] [1; 0] H1 H2 H3 H4 H5) as H.
  cbv zeta in H. destruct H as (_ & _ & _ & _ & H).
  repeat (split; [assumption |]). exact H.
Defined.

Lemma missing_headers_fails_batch_witness :
  [sample_jpeg; sample_headless] !! 1 = Some {| headers := None; content := "abc" |}
  ∧ returned (upload sample_uuidv4 sample_env all_succeed
                [finish {| fields := ∅; files := files_array [sample_jpeg; sample_headless] |}]
                [0])
    = rejected MissingHeadersError.
Proof.
  split; [reflexivity |].
  destruct (missing_headers_fails_batch
              sample_uuidv4 sample_env all_succeed ∅ [sample_jpeg; sample_headless]
              [] [0] 1 "abc" eq_refl) as (_ & _ & _ & H).
  apply H. intros [| j] f Hj Hf; [| lia].
  injection Hf as <-. exists "jpg". vm_compute. reflexivity.
Defined.

(** ** The documented scenarios, run on the code *)

(** C2, as the code has it. A supported file makes [uploadFileIntoS3] hand
    the S3 client one upload: bucket from [process.env], key made of a fresh
    identifier, a dot and the extension, body the file; nothing else is
    set. For the one-part body of type image/jpeg with content "abc" and an
    S3 client that accepts the upload, exactly one upload is issued, its key
    matches [^[0-9a-f-]{36}\.jpg$] and its body is the file; but when the
    upload completes the handler is rejected with the [ReferenceError] of
    [fileName], so the status 201 is not returned. *)
Theorem one_jpeg_uploaded_then_rejected :
  forall (uuidv4 : nat -> string) (env : gmap string string)
         (fs : gmap string string) (later : list parser_event),
    is_uuid_text (uuidv4 0) = true ->
    let file :=
      {| headers := Some {[ "content-type" := "image/jpeg" ]}; content := "abc" |} in
    let inv :=
      upload uuidv4 env all_succeed
             (finish {| fields := fs; files := files_array [file] |} :: later) [0] in
    (forall (f : FileRecord) (ext : string) (w : world),
        getFileExtension f = inr ext ->
        uploadFileIntoS3_begin uuidv4 env f w =
        (awaiting_s3 {| Bucket := env !! "file_s3_bucket_name";
                        Key := uuidv4 (uuid_calls w) +:+ "." +:+ ext;
                        Body := f |},
         {| uuid_calls := S (uuid_calls w);
            s3_uploads := s3_uploads w ++
                          [ {| Bucket := env !! "file_s3_bucket_name";
                               Key := uuidv4 (uuid_calls w) +:+ "." +:+ ext;
                               Body := f |} ];
            console := console w |}))
    ∧ s3_uploads (after inv)
      = [ {| Bucket := env !! "file_s3_bucket_name";
             Key := uuidv4 0 +:+ ".jpg";
             Body := file |} ]
    ∧ matches_key 36 ".jpg" (uuidv4 0 +:+ ".jpg") = true
    ∧ content file = "abc"
    ∧ returned inv = rejected fileName_unbound
    ∧ returned inv ≠ fulfilled {| statusCode := 201 |}.
Proof.
  intros uuidv4 env fs later Hfmt file inv.
  assert (getFileExtension file = inr "jpg") as Hext by (vm_compute; reflexivity).
  split.
  { intros f ext w Hf. unfold uploadFileIntoS3_begin. by rewrite Hf. }
  subst inv.
  rewrite (upload_some_files uuidv4 env all_succeed fs [file] later [0]) by discriminate.
  cbn zeta. cbn [map_uploads]. unfold uploadFileIntoS3_begin. rewrite Hext.
  cbn [fst snd start_of_invocation uuid_calls s3_uploads console app].
  unfold all_start, run. cbn [forallb is_fulfilled fold_left all_notice andb].
  erewrite complete_awaiting; [| reflexivity].
  cbn [returned after fst snd default all_succeed reject write_console s3_uploads].
  split; [reflexivity |]. split; [by apply matches_key_append |].
  split; [reflexivity |]. split; [reflexivity | discriminate].
Qed.

Lemma one_jpeg_uploaded_then_rejected_witness :
  is_uuid_text (sample_uuidv4 0) = true
  ∧ returned (upload sample_uuidv4 sample_env all_succeed
                [finish {| fields := {[ "name" := "foo" ]};
                           files := files_array [sample_jpeg] |}]
                [0])
    = rejected fileName_unbound.
Proof.
  assert (is_uuid_text (sample_uuidv4 0) = true) as H0 by (vm_compute; reflexivity).
  split; [exact H0 |].
  pose proof (one_jpeg_uploaded_then_rejected
                sample_uuidv4 sample_env {[ "name" := "foo" ]} [] H0) as H.
  cbv zeta in H. destruct H as (_ & _ & _ & _ & H & _). exact H.
Defined.

(** C6, as the code has it. Two supported files; the S3 client accepts the
    upload of the first and refuses the upload of the second with an error of
    its own. Both uploads are issued and neither is undone, and the refusal
    is written to the console and re-thrown by its call. When the refused
    upload completes first, the handler is rejected with the S3 client's
    error. When the accepted upload completes first, its call is rejected
    with the [ReferenceError] of [fileName], and that error, not the S3
    client's, is what the handler is rejected with. *)
Theorem sibling_success_masks_storage_error :
  forall (uuidv4 : nat -> string) (env : gmap string string)
         (fs : gmap string string) (later : list parser_event)
         (description : string),
    let refusal := LibraryError description in
    let emitted :=
      finish {| fields := fs; files := files_array [sample_jpeg; sample_png] |}
        :: later in
    let sent :=
      [ {| Bucket := env !! "file_s3_bucket_name";
           Key := uuidv4 0 +:+ ".jpg"; Body := sample_jpeg |};
        {| Bucket := env !! "file_s3_bucket_name";
           Key := uuidv4 1 +:+ ".png"; Body := sample_png |} ] in
    (let inv := upload uuidv4 env (second_fails refusal) emitted [1; 0] in
     returned inv = rejected refusal
     ∧ per_file inv = [task_rejected fileName_unbound; task_rejected refusal]
     ∧ console (after inv) = [console_error refusal; console_error fileName_unbound]
     ∧ s3_uploads (after inv) = sent)
    ∧ (let inv := upload uuidv4 env (second_fails refusal) emitted [0; 1] in
       returned inv = rejected fileName_unbound
       ∧ returned inv ≠ rejected refusal
       ∧ per_file inv = [task_rejected fileName_unbound; task_rejected refusal]
       ∧ console (after inv) = [console_error fileName_unbound; console_error refusal]
       ∧ s3_uploads (after inv) = sent).
Proof.
  intros uuidv4 env fs later description refusal emitted sent.
  subst emitted.
  rewrite !(upload_some_files uuidv4 env (second_fails refusal) fs
              [sample_jpeg; sample_png] later) by discriminate.
  cbn zeta. cbn [map_uploads]. unfold uploadFileIntoS3_begin.
  rewrite sample_jpeg_ext, sample_png_ext.
  cbn [fst snd start_of_invocation uuid_calls s3_uploads console app].
  unfold all_start, run.
  cbn [forallb is_fulfilled fold_left all_notice andb].
  split.
  - erewrite complete_awaiting; [| reflexivity].
    erewrite complete_awaiting; [| reflexivity].
    repeat split.
  - erewrite complete_awaiting; [| reflexivity].
    erewrite complete_awaiting; [| reflexivity].
    repeat split. discriminate.
Qed.

(** ** Further facts of the dispatch *)

(** A whole call of [uploadFileIntoS3]. It always ends rejected, and it
    writes to the console exactly the errors raised once the upload was
    sent. A file that [getFileExtension] refuses is rejected with that
    error, which is thrown outside the [try]: nothing is written, no
    identifier is generated, nothing is sent. For any other file one upload
    is sent, and the call writes one [console.error] line and is rejected
    with the error of that line: the S3 client's when the upload is refused,
    the [ReferenceError] of [fileName] when it is accepted. *)
Theorem storage_error_logged_and_rethrown :
  forall (uuidv4 : nat -> string) (env : gmap string string)
         (file : FileRecord) (answer : option js_error) (w : world),
    match getFileExtension file with
    | inl refusal =>
        uploadFileIntoS3 uuidv4 env file answer w = (task_rejected refusal, w)
    | inr ext =>
        (uploadFileIntoS3 uuidv4 env file answer w).1
        = task_rejected match answer with
                        | Some err => err
                        | None => fileName_unbound
                        end
        ∧ console (uploadFileIntoS3 uuidv4 env file answer w).2
          = (console w ++ [ console_error match answer with
                                          | Some err => err
                                          | None => fileName_unbound
                                          end ])%list
        ∧ s3_uploads (uploadFileIntoS3 uuidv4 env file answer w).2
          = (s3_uploads w ++ [ {| Bucket := env !! "file_s3_bucket_name";
                                  Key := uuidv4 (uuid_calls w) +:+ "." +:+ ext;
                                  Body := file |} ])%list
        ∧ uuid_calls (uploadFileIntoS3 uuidv4 env file answer w).2 = S (uuid_calls w)
    end.
Proof.
  intros uuidv4 env file answer w.
  unfold uploadFileIntoS3, uploadFileIntoS3_begin.
  destruct (getFileExtension file) as [refusal | ext]; [reflexivity |].
  rewrite resume_rejects. by destruct answer.
Qed.

(** What is sent to the S3 client depends on the files alone: one upload
    for every file [getFileExtension] accepts, whatever the S3 client
    answers, in whatever order, and whether or not the handler fails.
    Nothing that was sent is taken back. *)
Theorem uploads_sent_whatever_happens :
  forall (uuidv4 : nat -> string) (env : gmap string string)
         (s3_answer : nat -> option js_error)
         (fs : gmap string string) (items : list FileRecord)
         (later : list parser_event) (completions : list nat),
    s3_uploads (after (upload uuidv4 env s3_answer
                         (finish {| fields := fs; files := files_array items |} :: later)
                         completions))
    = issued uuidv4 env items 0.
Proof.
  intros uuidv4 env s3_answer fs items later completions.
  destruct items as [| file rest].
  - by rewrite upload_no_files.
  - rewrite upload_some_files by discriminate. cbn zeta. cbn [after].
    destruct (run_requests env s3_answer completions
                ((map_uploads uuidv4 env (file :: rest) start_of_invocation).1,
                 all_start (map_uploads uuidv4 env (file :: rest) start_of_invocation).1,
                 (map_uploads uuidv4 env (file :: rest) start_of_invocation).2))
      as [-> _].
    cbn [fst snd].
    by destruct (map_uploads_world uuidv4 env (file :: rest) start_of_invocation)
      as (_ & -> & _).
Qed.

(** With at least one file the handler is never fulfilled, whatever the
    files, the answers of the S3 client and their order: every call of
    [uploadFileIntoS3] ends rejected. *)
Theorem upload_with_files_never_fulfilled :
  forall (uuidv4 : nat -> string) (env : gmap string string)
         (s3_answer : nat -> option js_error)
         (fs : gmap string string) (file : FileRecord) (rest : list FileRecord)
         (later : list parser_event) (completions : list nat) (resp : response),
    returned (upload uuidv4 env s3_answer
                (finish {| fields := fs; files := files_array (file :: rest) |} :: later)
                completions)
    ≠ fulfilled resp.
Proof.
  intros uuidv4 env s3_answer fs file rest later completions resp.
  rewrite upload_some_files by discriminate. cbn zeta. cbn [returned].
  destruct (map_uploads_world uuidv4 env (file :: rest) start_of_invocation)
    as (Hlen & _ & _ & Hun).
  set (tasks := (map_uploads uuidv4 env (file :: rest) start_of_invocation).1) in *.
  set (w1 := (map_uploads uuidv4 env (file :: rest) start_of_invocation).2).
  assert (tasks ≠ []) as Htasks by (intros E; by rewrite E in Hlen).
  destruct (run_unfulfilled env s3_answer completions (tasks, all_start tasks, w1))
    as [_ Hnever]; [done | |].
  - intros v. cbn [fst snd]. rewrite (all_start_unfulfilled tasks Htasks Hun).
    by destruct (first_rejection tasks).
  - destruct ((run env s3_answer completions (tasks, all_start tasks, w1)).1.2)
      as [| v |] eqn:E; [discriminate | | discriminate].
    by destruct (Hnever v).
Qed.


(** ** The result of the handler for any batch *)

Section Result_facts.

Variable uuidv4 : nat -> string.
Variable env : gmap string string.
Variable s3_answer : nat -> option js_error.

Lemma map_uploads_first_refusal (items : list FileRecord) (w : world) :
  first_rejection (map_uploads uuidv4 env items w).1 = first_refusal items.
Proof.
  revert w. induction items as [| file rest IH]; intros w; [done |].
  cbn [map_uploads first_refusal]. unfold uploadFileIntoS3_begin.
  destruct (getFileExtension file) as [err | ext].
  - by destruct (map_uploads uuidv4 env rest w).
  - match goal with
    | |- context [map_uploads uuidv4 env rest ?w1] =>
        specialize (IH w1); by destruct (map_uploads uuidv4 env rest w1)
    end.
Qed.

Lemma first_refusal_none (items : list FileRecord) :
  first_refusal items = None -> Forall supported items.
Proof.
  induction items as [| file rest IH]; intros H; [constructor |].
  cbn [first_refusal] in H. destruct (getFileExtension file) as [err | ext] eqn:E; [done |].
  constructor; [by exists ext | by apply IH].
Qed.

Lemma run_first_completion (completions : list nat) (tasks : list task) (w : world) :
  Forall awaiting tasks ->
  (run env s3_answer completions (tasks, pending, w)).1.2 =
  match first_completion (length tasks) completions with
  | Some i => rejected (default fileName_unbound (s3_answer i))
  | None => pending
  end.
Proof.
  intros Haw. revert w. unfold first_completion.
  induction completions as [| i rest IH]; intros w; [done |].
  unfold run in *. cbn [fold_left List.find].
  destruct (Nat.ltb_spec i (length tasks)) as [Hlt | Hge].
  - destruct (lookup_lt_is_Some_2 tasks i Hlt) as [t Ht].
    destruct (proj1 (Forall_lookup _ _) Haw i t Ht) as [o ->].
    rewrite (complete_awaiting env s3_answer tasks pending w i o Ht).
    cbn [reject]. by apply (run_rejected env s3_answer rest).
  - rewrite complete_idle; [apply IH |].
    intros o. by rewrite (lookup_ge_None_2 tasks i).
Qed.

End Result_facts.

(** The result of the handler for a batch of one or more files, in full. If
    [getFileExtension] refuses some file, the handler is rejected with the
    error of the first such file in the order of the array, whatever the S3
    client does with the others. Otherwise the first upload to complete
    decides: the handler is rejected with the S3 client's error if that
    upload was refused, and with the [ReferenceError] of [fileName] if it was
    accepted; as long as no upload has completed the handler is pending. *)
Theorem upload_result_characterised :
  forall (uuidv4 : nat -> string) (env : gmap string string)
         (s3_answer : nat -> option js_error)
         (fs : gmap string string) (file : FileRecord) (rest : list FileRecord)
         (later : list parser_event) (completions : list nat),
    returned (upload uuidv4 env s3_answer
                (finish {| fields := fs; files := files_array (file :: rest) |} :: later)
                completions)
    = match first_refusal (file :: rest) with
      | Some err => rejected err
      | None =>
          match first_completion (length (file :: rest)) completions with
          | Some i => rejected (default fileName_unbound (s3_answer i))
          | None => pending
          end
      end.
Proof.
  intros uuidv4 env s3_answer fs file rest later completions.
  rewrite upload_some_files by discriminate. cbn zeta. cbn [returned].
  destruct (map_uploads_world uuidv4 env (file :: rest) start_of_invocation)
    as (Hlen & _ & _ & Hun).
  pose proof (map_uploads_first_refusal uuidv4 env (file :: rest) start_of_invocation)
    as Hfirst.
  set (tasks := (map_uploads uuidv4 env (file :: rest) start_of_invocation).1) in *.
  set (w1 := (map_uploads uuidv4 env (file :: rest) start_of_invocation).2).
  assert (tasks ≠ []) as Htasks by (intros E; by rewrite E in Hlen).
  rewrite (all_start_unfulfilled tasks Htasks Hun), Hfirst.
  destruct (first_refusal (file :: rest)) as [err |] eqn:Eref.
  - by rewrite (run_rejected env s3_answer completions _ err).
  - pose proof (map_uploads_awaiting uuidv4 env (file :: rest) start_of_invocation
                  (first_refusal_none _ Eref)) as Haw.
    fold tasks in Haw.
    rewrite (run_first_completion env s3_answer completions tasks w1 Haw), Hlen.
    by destruct (first_completion (length (file :: rest)) completions).
Qed.

(** Neither the form fields nor anything the decoder emits after its first
    notification has any influence on what the handler does. *)
Theorem upload_ignores_fields_and_later_events :
  forall (uuidv4 : nat -> string) (env : gmap string string)
         (s3_answer : nat -> option js_error)
         (fs fs' : gmap string string) (parts : js_files)
         (later later' : list parser_event) (completions : list nat),
    upload uuidv4 env s3_answer
           (finish {| fields := fs; files := parts |} :: later) completions
    = upload uuidv4 env s3_answer
           (finish {| fields := fs'; files := parts |} :: later') completions.
Proof. intros. unfold upload. by rewrite !parse_first. Qed.

(** ** What an invocation leaves behind, for any batch *)

Section World_facts.

Variable uuidv4 : nat -> string.
Variable env : gmap string string.
Variable s3_answer : nat -> option js_error.

Lemma issued_lookup (items : list FileRecord) (k j : nat) (put : upload_options) :
  issued uuidv4 env items k !! j = Some put ->
  Body put ∈ items
  ∧ Bucket put = env !! "file_s3_bucket_name"
  ∧ exists ext,
      getFileExtension (Body put) = inr ext
      ∧ Key put = uuidv4 (k + j) +:+ "." +:+ ext.
Proof.
  revert k j. induction items as [| file rest IH]; intros k j Hj; [done |].
  cbn [issued] in Hj. destruct (getFileExtension file) as [err | ext] eqn:E.
  - destruct (IH k j Hj) as (Hin & Hb & Hk). split; [by apply elem_of_cons; right | done].
  - destruct j as [| j].
    + injection Hj as <-. cbn [Body Bucket Key].
      split; [by apply elem_of_cons; left |]. split; [done |].
      exists ext. by rewrite Nat.add_0_r.
    + rewrite lookup_cons in Hj. cbn [Nat.pred] in Hj.
      destruct (IH (S k) j Hj) as (Hin & Hb & e & He & Hk).
      split; [by apply elem_of_cons; right |]. split; [done |].
      exists e. split; [done |]. by replace (k + S j) with (S k + j) by lia.
Qed.

Lemma issued_length_le (items : list FileRecord) (k : nat) :
  length (issued uuidv4 env items k) <= length items.
Proof.
  revert k. induction items as [| file rest IH]; intros k; [done |].
  cbn [issued]. destruct (getFileExtension file).
  - specialize (IH k). cbn. lia.
  - specialize (IH (S k)). cbn. lia.
Qed.

Lemma map_uploads_calls (items : list FileRecord) (w : world) :
  uuid_calls (map_uploads uuidv4 env items w).2
  = uuid_calls w + length (issued uuidv4 env items (uuid_calls w))
  ∧ in_flight (map_uploads uuidv4 env items w).1
    = length (issued uuidv4 env items (uuid_calls w)).
Proof.
  revert w. induction items as [| file rest IH]; intros w.
  - cbn. lia.
  - cbn [map_uploads issued]. unfold uploadFileIntoS3_begin.
    destruct (getFileExtension file) as [err | ext].
    + destruct (IH w) as [Hc Hf].
      destruct (map_uploads uuidv4 env rest w) as [ts w2]. cbn in *. done.
    + match goal with
      | |- context [map_uploads uuidv4 env rest ?w1] =>
          destruct (IH w1) as [Hc Hf];
          destruct (map_uploads uuidv4 env rest w1) as [ts w2]
      end.
      cbn in *. rewrite Hc, Hf. lia.
Qed.

Lemma map_uploads_accepted (items : list FileRecord) (w : world) (i : nat)
      (file : FileRecord) (ext : string) :
  items !! i = Some file ->
  getFileExtension file = inr ext ->
  exists options, (map_uploads uuidv4 env items w).1 !! i = Some (awaiting_s3 options).
Proof.
  revert w i. induction items as [| f rest IH]; intros w i Hi Hext; [done |].
  cbn [map_uploads]. unfold uploadFileIntoS3_begin.
  destruct i as [| i]; cbn in Hi.
  - injection Hi as ->. rewrite Hext.
    match goal with
    | |- context [map_uploads uuidv4 env rest ?w1] =>
        destruct (map_uploads uuidv4 env rest w1)
    end.
    by eexists.
  - destruct (getFileExtension f) as [e | x].
    + destruct (IH w i Hi Hext) as [o Ho].
      destruct (map_uploads uuidv4 env rest w). by exists o.
    + match goal with
      | |- context [map_uploads uuidv4 env rest ?w1] =>
          destruct (IH w1 i Hi Hext) as [o Ho];
          destruct (map_uploads uuidv4 env rest w1)
      end.
      by exists o.
Qed.

Lemma in_flight_insert (tasks : list task) (i : nat) (options : upload_options)
      (err : js_error) :
  tasks !! i = Some (awaiting_s3 options) ->
  in_flight tasks = S (in_flight (<[i := task_rejected err]> tasks)).
Proof.
  revert i. induction tasks as [| t ts IH]; intros i Hi; [done |].
  destruct i as [| i]; cbn in Hi.
  - by injection Hi as ->.
  - cbn [insert list_insert]. specialize (IH i Hi).
    destruct t; cbn [in_flight]; by rewrite IH.
Qed.


(** Every upload that has completed has written one [console.error] line,
    and nothing else is ever written. *)
Lemma run_console (completions : list nat) (st : list task * promise unit * world)
      (n : nat) :
  Forall is_console_error (console st.2) ->
  length (console st.2) + in_flight st.1.1 = n ->
  Forall is_console_error (console (run env s3_answer completions st).2)
  ∧ length (console (run env s3_answer completions st).2)
    + in_flight (run env s3_answer completions st).1.1 = n.
Proof.
  intros Hall Hn.
  apply (run_preserves env s3_answer
           (fun st' => Forall is_console_error (console st'.2)
                       ∧ length (console st'.2) + in_flight st'.1.1 = n)); [| done].
  intros i st' [Hall' Hn'].
  destruct (complete_cases env s3_answer i st') as [-> | (o & Ho & ->)]; [done |].
  cbn [fst snd write_console console]. split.
  - apply Forall_app. split; [done |]. constructor; [by eexists | constructor].
  - rewrite length_app. cbn [length].
    rewrite (in_flight_insert _ i o (default fileName_unbound (s3_answer i)) Ho) in Hn'.
    lia.
Qed.

Lemma run_console_grows (completions : list nat) (st : list task * promise unit * world)
      (entry : console_entry) :
  entry ∈ console st.2 -> entry ∈ console (run env s3_answer completions st).2.
Proof.
  intros Hin.
  apply (run_preserves env s3_answer (fun st' => entry ∈ console st'.2)); [| done].
  intros i st' Hin'.
  destruct (complete_cases env s3_answer i st') as [-> | (o & Ho & ->)]; [done |].
  cbn [fst snd write_console console]. apply elem_of_app. by left.
Qed.




Lemma run_completes (completions : list nat) (st : list task * promise unit * world)
      (i : nat) (options : upload_options) :
  st.1.1 !! i = Some (awaiting_s3 options) ->
  i ∈ completions ->
  (run env s3_answer completions st).1.1 !! i
  = Some (task_rejected (default fileName_unbound (s3_answer i)))
  ∧ console_error (default fileName_unbound (s3_answer i))
    ∈ console (run env s3_answer completions st).2.
Proof.
  revert st. induction completions as [| j rest IH]; intros st Hst Hin.
  - by apply elem_of_nil in Hin.
  - change (run env s3_answer (j :: rest) st)
      with (run env s3_answer rest (complete env s3_answer j st)).
    destruct (decide (j = i)) as [-> | Hji].
    + destruct st as [[tasks all] w]. cbn [fst snd] in Hst.
      rewrite (complete_awaiting env s3_answer tasks all w i options Hst). split.
      * apply run_task_rejected. cbn [fst snd].
        rewrite list_lookup_insert_eq; [done | by eapply lookup_lt_Some].
      * apply run_console_grows. cbn [fst snd write_console console].
        apply elem_of_app. right. by apply list_elem_of_singleton.
    + apply elem_of_cons in Hin as [-> | Hin]; [done |].
      apply IH; [| done].
      destruct (complete_cases env s3_answer j st) as [-> | (o & Ho & ->)]; [done |].
      cbn [fst snd]. by rewrite list_lookup_insert_ne.
Qed.

(** The world after the handler, in terms of the world after [files.map]. *)
Lemma upload_world (fs : gmap string string) (items : list FileRecord)
      (later : list parser_event) (completions : list nat) :
  let inv :=
    upload uuidv4 env s3_answer
           (finish {| fields := fs; files := files_array items |} :: later)
           completions in
  s3_uploads (after inv) = issued uuidv4 env items 0
  ∧ uuid_calls (after inv) = length (issued uuidv4 env items 0)
  ∧ Forall is_console_error (console (after inv))
  ∧ length (console (after inv)) + in_flight (per_file inv)
    = length (issued uuidv4 env items 0).
Proof.
  destruct items as [| file rest].
  - cbn zeta. rewrite upload_no_files by done. cbn. repeat split. constructor.
  - cbn zeta. rewrite upload_some_files by discriminate. cbn zeta.
    cbn [after per_file].
    destruct (map_uploads_world uuidv4 env (file :: rest) start_of_invocation)
      as (_ & Hup & Hcon & _).
    destruct (map_uploads_calls (file :: rest) start_of_invocation) as [Hcalls Hfl].
    set (tasks := (map_uploads uuidv4 env (file :: rest) start_of_invocation).1) in *.
    set (w1 := (map_uploads uuidv4 env (file :: rest) start_of_invocation).2) in *.
    destruct (run_requests env s3_answer completions (tasks, all_start tasks, w1))
      as [-> ->].
    cbn [fst snd]. rewrite Hup, Hcalls.
    cbn [start_of_invocation s3_uploads uuid_calls app Nat.add].
    split; [done |]. split; [done |].
    apply run_console; cbn [fst snd].
    + rewrite Hcon. constructor.
    + rewrite Hcon, Hfl. reflexivity.
Qed.

End World_facts.

(** One identifier per upload, used in the order of the calls: the [k]-th
    upload given to the S3 client has as key the [k]-th identifier, a dot and
    the extension of its own file, as bucket the value of
    [file_s3_bucket_name] and as body one of the parsed files. A file that
    [getFileExtension] refuses uses up no identifier, so there are never
    more uploads than files. *)
Theorem uploads_use_consecutive_identifiers :
  forall (uuidv4 : nat -> string) (env : gmap string string)
         (s3_answer : nat -> option js_error)
         (fs : gmap string string) (items : list FileRecord)
         (later : list parser_event) (completions : list nat),
    let inv :=
      upload uuidv4 env s3_answer
             (finish {| fields := fs; files := files_array items |} :: later)
             completions in
    uuid_calls (after inv) = length (s3_uploads (after inv))
    ∧ length (s3_uploads (after inv)) <= length items
    ∧ forall (k : nat) (put : upload_options),
        s3_uploads (after inv) !! k = Some put ->
        Body put ∈ items
        ∧ Bucket put = env !! "file_s3_bucket_name"
        ∧ exists ext,
            getFileExtension (Body put) = inr ext
            ∧ Key put = uuidv4 k +:+ "." +:+ ext.
Proof.
  intros uuidv4 env s3_answer fs items later completions inv.
  destruct (upload_world uuidv4 env s3_answer fs items later completions)
    as (Hup & Hcalls & _). fold inv in Hup, Hcalls.
  rewrite Hup, Hcalls. split; [done |]. split; [apply issued_length_le |].
  intros k put Hk. exact (issued_lookup uuidv4 env items 0 k put Hk).
Qed.

(** The console after an invocation holds [console.error] lines only, one
    for each upload that has completed; the success line of line 73 is
    never written. *)
Theorem console_one_error_per_completed_upload :
  forall (uuidv4 : nat -> string) (env : gmap string string)
         (s3_answer : nat -> option js_error)
         (fs : gmap string string) (items : list FileRecord)
         (later : list parser_event) (completions : list nat),
    let inv :=
      upload uuidv4 env s3_answer
             (finish {| fields := fs; files := files_array items |} :: later)
             completions in
    Forall is_console_error (console (after inv))
    ∧ length (console (after inv)) + in_flight (per_file inv)
      = length (s3_uploads (after inv)).
Proof.
  intros uuidv4 env s3_answer fs items later completions inv.
  destruct (upload_world uuidv4 env s3_answer fs items later completions)
    as (Hup & _ & Herr & Hcount). fold inv in Hup, Herr, Hcount.
  by rewrite Hup.
Qed.



(** In any batch, when the upload of a file that [getFileExtension] accepts
    completes, the call for that file writes one error with [console.error]
    and is rejected with the same error: the S3 client's error if the upload
    was refused, the [ReferenceError] of [fileName] if it was accepted. *)
Theorem completed_upload_logged_and_rethrown :
  forall (uuidv4 : nat -> string) (env : gmap string string)
         (s3_answer : nat -> option js_error)
         (fs : gmap string string) (items : list FileRecord)
         (later : list parser_event) (completions : list nat)
         (i : nat) (file : FileRecord) (ext : string),
    items !! i = Some file ->
    getFileExtension file = inr ext ->
    i ∈ completions ->
    let inv :=
      upload uuidv4 env s3_answer
             (finish {| fields := fs; files := files_array items |} :: later)
             completions in
    let err :=
      match s3_answer i with
      | Some refusal => refusal
      | None => fileName_unbound
      end in
    per_file inv !! i = Some (task_rejected err)
    ∧ console_error err ∈ console (after inv).
Proof.
  intros uuidv4 env s3_answer fs items later completions i file ext Hi Hext Hin inv err.
  assert (items ≠ []) as Hne by (intros ->; done).
  subst inv. rewrite (upload_some_files uuidv4 env s3_answer fs items later completions Hne).
  cbn zeta. cbn [per_file after].
  destruct (map_uploads_accepted uuidv4 env items start_of_invocation i file ext Hi Hext)
    as [o Ho].
  set (begun := map_uploads uuidv4 env items start_of_invocation) in *.
  exact (run_completes env s3_answer completions
           (begun.1, all_start begun.1, begun.2) i o Ho Hin).
Qed.

Lemma completed_upload_logged_and_rethrown_witness :
  [sample_jpeg; sample_png] !! 1 = Some sample_png
  ∧ getFileExtension sample_png = inr "png"
  ∧ 1 ∈ [0; 1]
  ∧ per_file (upload sample_uuidv4 sample_env (second_fails (LibraryError "AccessDenied"))
                [finish {| fields := ∅; files := files_array [sample_jpeg; sample_png] |}]
                [0; 1]) !! 1
    = Some (task_rejected (LibraryError "AccessDenied")).
Proof.
  assert (1 ∈ [0; 1]) as Hin by set_solver.
  split; [reflexivity |]. split; [exact sample_png_ext |]. split; [exact Hin |].
  exact (proj1 (completed_upload_logged_and_rethrown
                  sample_uuidv4 sample_env (second_fails (LibraryError "AccessDenied"))
                  ∅ [sample_jpeg; sample_png] [] [0; 1] 1 sample_png "png"
                  eq_refl sample_png_ext Hin)).
Defined.

(** ** More on extension derivation *)

Lemma table_lookup_elem (table : list (string * string)) (key value : string) :
  table_lookup table key = Some value -> (key, value) ∈ table.
Proof.
  induction table as [| [k v] rest IH]; intros H; [done |].
  cbn [table_lookup] in H. case_bool_decide as Hk.
  - injection H as <-. subst k. apply elem_of_cons. by left.
  - apply elem_of_cons. right. by apply IH.
Qed.

Lemma extension_table_injective (ct1 ct2 ext : string) :
  table_lookup extension_table ct1 = Some ext ->
  table_lookup extension_table ct2 = Some ext ->
  ct1 = ct2.
Proof.
  unfold extension_table. cbn [table_lookup]. intros H1 H2.
  repeat case_bool_decide; simplify_eq; done.
Qed.

Lemma getFileExtension_accepts (file : FileRecord) (ext : string) :
  getFileExtension file = inr ext ->
  exists hs ct,
    headers file = Some hs
    ∧ hs !! "content-type" = Some ct
    ∧ table_lookup extension_table ct = Some ext.
Proof.
  destruct file as [[hs |] body]; [| discriminate].
  rewrite getFileExtension_table. intros H.
  destruct (hs !! "content-type") as [ct |] eqn:Ect; [| discriminate].
  destruct (table_lookup extension_table ct) as [e |] eqn:Et; [| discriminate].
  injection H as ->. by exists hs, ct.
Qed.

(** [getFileExtension] reads the "content-type" entry of the headers and
    nothing else: two records whose headers agree on that entry get the same
    answer, whatever their other headers and their content. *)
Theorem extension_reads_content_type_only :
  forall (hs1 hs2 : gmap string string) (body1 body2 : string),
    hs1 !! "content-type" = hs2 !! "content-type" ->
    getFileExtension {| headers := Some hs1; content := body1 |}
    = getFileExtension {| headers := Some hs2; content := body2 |}.
Proof. intros hs1 hs2 body1 body2 H. by rewrite !getFileExtension_table, H. Qed.

Lemma extension_reads_content_type_only_witness :
  ({[ "content-type" := "image/png" ]} : gmap string string) !! "content-type"
  = ({[ "content-type" := "image/png"; "content-disposition" := "form-data" ]}
      : gmap string string) !! "content-type"
  ∧ getFileExtension sample_png = getFileExtension sample_png_disposed.
Proof.
  assert (({[ "content-type" := "image/png" ]} : gmap string string) !! "content-type"
          = ({[ "content-type" := "image/png"; "content-disposition" := "form-data" ]}
              : gmap string string) !! "content-type") as H
      by (vm_compute; reflexivity).
  split; [exact H |].
  exact (extension_reads_content_type_only _ _ "xyz" "other bytes" H).
Defined.

(** The extension tells the declared content type: a record gets an
    extension only if its headers declare a content type of the table, and
    two records that get the same extension declare the same content
    type. *)
Theorem extension_identifies_content_type :
  forall (file1 file2 : FileRecord) (ext : string),
    getFileExtension file1 = inr ext ->
    getFileExtension file2 = inr ext ->
    exists (hs1 hs2 : gmap string string) (ct : string),
      headers file1 = Some hs1
      ∧ headers file2 = Some hs2
      ∧ hs1 !! "content-type" = Some ct
      ∧ hs2 !! "content-type" = Some ct
      ∧ (ct, ext) ∈ extension_table.
Proof.
  intros file1 file2 ext H1 H2.
  destruct (getFileExtension_accepts file1 ext H1) as (hs1 & ct1 & Hh1 & Hc1 & Ht1).
  destruct (getFileExtension_accepts file2 ext H2) as (hs2 & ct2 & Hh2 & Hc2 & Ht2).
  assert (ct2 = ct1) as -> by (by eapply extension_table_injective).
  exists hs1, hs2, ct1. repeat split; try done. by apply table_lookup_elem.
Qed.

Lemma extension_identifies_content_type_witness :
  getFileExtension sample_png = inr "png"
  ∧ getFileExtension sample_png_disposed = inr "png"
  ∧ exists (hs1 hs2 : gmap string string) (ct : string),
      headers sample_png = Some hs1
      ∧ headers sample_png_disposed = Some hs2
      ∧ hs1 !! "content-type" = Some ct
      ∧ hs2 !! "content-type" = Some ct
      ∧ (ct, "png") ∈ extension_table.
Proof.
  assert (getFileExtension sample_png_disposed = inr "png") as H2
      by (vm_compute; reflexivity).
  split; [exact sample_png_ext |]. split; [exact H2 |].
  exact (extension_identifies_content_type sample_png sample_png_disposed "png"
           sample_png_ext H2).
Defined.
